(** * MSusik.github.io: the Vuex store and the route tables

  A shallow embedding of the two pieces of executable logic of the site:
  the store built at application start (state, getters, three mutations) and the
  static route tables handed to [vue-router] in [router.js]; and of the C++
  class that the article page prints, [SmithWatermanAlgorithm].

  JavaScript values are a small inductive type, the store's state is a
  record, and the mutations are computations in a state-and-exception
  monad over a [World] that holds the store together with the log of image
  requests the page has issued. *)

From Stdlib Require Import Strings.Ascii.
From stdpp Require Import base strings list gmap.

Open Scope string_scope.

(** ** JavaScript values *)

Module JS.

(** The values that travel through the store: primitives and plain
    objects, an object being a finite map from property names to values. *)
#[warnings="-register-all"]
Inductive value : Type :=
| VUndefined
| VNull
| VBool (b : bool)
| VString (s : string)
| VObject (props : gmap string value).

Inductive error : Type :=
| TypeError.

(** How an evaluation ends: normally with a result, or by throwing. *)
Inductive completion (A : Type) : Type :=
| Normal (a : A)
| Throw (e : error).
Arguments Normal {A} a.
Arguments Throw {A} e.

(** [v[key]] for a value that is neither [undefined] nor [null]: an
    object answers with its property, and a boolean or a string has no
    property of the names used here, so the answer is [undefined]. *)
Definition get_prop (key : string) (v : value) : value :=
  match v with
  | VObject props => default VUndefined (props !! key)
  | _ => VUndefined
  end.

(** The parameter pattern [{ key }]: reading a property of [undefined] or
    [null] throws a [TypeError]. *)
Definition destructure (key : string) (v : value) : completion value :=
  match v with
  | VUndefined | VNull => Throw TypeError
  | _ => Normal (get_prop key v)
  end.

End JS.

Import JS.

(** ** The store *)

Module Store.

(** [state] of the store.  [base] and [images] are only ever read, so they
    keep the types of their initial values; [image] and
    [backgroundInTransition] are assigned whatever the payload carries. *)
Record State : Type := mkState {
  base : string;
  image : value;
  images : list string;
  backgroundInTransition : value
}.

(** The store object together with what the browser has been asked to
    fetch: each [new Image().src = url] appends [url] to [requests]. *)
Record World : Type := mkWorld {
  state : State;
  requests : list string
}.

(** Computations that read and write the world and may throw.  A thrown
    exception keeps the writes made before it. *)
Definition M (A : Type) : Type := World → completion A * World.

#[export] Instance M_ret : MRet M := λ A a w, (Normal a, w).

#[export] Instance M_bind : MBind M := λ A B f m w,
  match m w with
  | (Normal a, w') => f a w'
  | (Throw e, w') => (Throw e, w')
  end.

Definition get_state : M State := λ w, (Normal (state w), w).

Definition modify_state (f : State → State) : M unit := λ w,
  (Normal (), {| state := f (state w); requests := requests w |}).

Definition lift {A : Type} (c : completion A) : M A := λ w, (c, w).

(** [new Image().src = url] *)
Definition new_Image_src (url : string) : M unit := λ w,
  (Normal (), {| state := state w; requests := requests w ++ [url] |}).

(** [Array.prototype.forEach]: the callback runs on every element, in index
    order. *)
Fixpoint forEach {A : Type} (arr : list A) (callback : A → M unit) : M unit :=
  match arr with
  | [] => mret ()
  | x :: rest => callback x ;; forEach rest callback
  end.

(** [state.image = v] and [state.backgroundInTransition = v] *)
Definition set_image (v : value) (st : State) : State :=
  {| base := base st; image := v; images := images st;
     backgroundInTransition := backgroundInTransition st |}.

Definition set_backgroundInTransition (v : value) (st : State) : State :=
  {| base := base st; image := image st; images := images st;
     backgroundInTransition := v |}.

(** The [state] option of [new Vuex.Store]. *)
Definition initial_state : State :=
  {| base := "https://raw.githubusercontent.com/MSusik/msusik.github.io/development/src/assets/backs/";
     image := VString "2.png";
     images := ["1.png"; "2.png"; "3.png"; "4.png"; "5.png"; "6.png"];
     backgroundInTransition := VBool false |}.

Definition initial_world : World :=
  {| state := initial_state; requests := [] |}.

(** The [getters] option. *)
Module getters.
Definition base (state : State) : string := Store.base state.
Definition images (state : State) : list string := Store.images state.
Definition image (state : State) : value := Store.image state.
Definition backgroundInTransition (state : State) : value :=
  Store.backgroundInTransition state.
End getters.

(** The [mutations] option.  A handler receives the state (here: through
    the monad) and the payload of the commit. *)
Definition handler : Type := value → M unit.

Definition cacheImages : handler := λ _,
  st ← get_state;
  forEach (images st) (λ img,
    st' ← get_state;
    new_Image_src (base st' +:+ img)).

Definition changeImage : handler := λ payload,
  image ← lift (destructure "image" payload);
  modify_state (set_image image).

Definition changeBackgroundInTransition : handler := λ payload,
  value ← lift (destructure "value" payload);
  modify_state (set_backgroundInTransition value).

Definition mutations : list (string * handler) :=
  [ ("cacheImages", cacheImages);
    ("changeImage", changeImage);
    ("changeBackgroundInTransition", changeBackgroundInTransition) ].

Definition lookup_mutation (type : string) : option handler :=
  snd <$> find (λ entry, String.eqb (fst entry) type) mutations.

(** [store.commit(type, payload)]: the handler registered under [type]
    runs on the payload; an unknown type changes nothing. *)
Definition commit (type : string) (payload : value) : M unit :=
  match lookup_mutation type with
  | Some h => h payload
  | None => mret ()
  end.

(** A session: commits run one after the other on the same store; a
    commit that throws leaves the store as it was at the throw and the
    next one still runs (each comes from its own event). *)
Fixpoint run_commits (cs : list (string * value)) (w : World) : World :=
  match cs with
  | [] => w
  | (type, payload) :: rest => run_commits rest (commit type payload w).2
  end.

End Store.

(** ** The route tables *)

Module Router.

(** The page components the tables refer to. *)
Inductive Component : Type :=
| Upmath
| CudaPart1
| About.

(** One entry of the [routes] option: a path, and either a redirect target
    or a named component. *)
Record RouteConfig : Type := mkRoute {
  path : string;
  name : option string;
  redirect : option string;
  component : option Component
}.

(** [routes] of [src/router.js], the variant with the CUDA article. *)
Definition routes : list RouteConfig :=
  [ {| path := "/"; name := None;
       redirect := Some "/implementing_smith_waterman_on_CUDA_part_1";
       component := None |};
    {| path := "/upmath"; name := Some "Upmath";
       redirect := None; component := Some Upmath |};
    {| path := "/implementing_smith_waterman_on_CUDA_part_1";
       name := Some "CudaPart1";
       redirect := None; component := Some CudaPart1 |} ].

(** [routes] of the other router file, the variant with the About page. *)
Definition routes_about : list RouteConfig :=
  [ {| path := "/"; name := None;
       redirect := Some "/upmath";
       component := None |};
    {| path := "/upmath"; name := Some "Upmath";
       redirect := None; component := Some Upmath |};
    {| path := "/about"; name := Some "About";
       redirect := None; component := Some About |} ].

(** What a navigation ends in: the path shown and the record that matched
    it, if any. *)
Record Route : Type := mkResolved {
  fullPath : string;
  matched : option RouteConfig
}.

(** The router's matcher on a table of static paths: the first record whose
    path is the location. *)
Definition match_path (table : list RouteConfig) (location : string)
  : option RouteConfig :=
  find (λ record, String.eqb (path record) location) table.

(** Navigation: a record with a redirect sends the navigation on to its
    target, any other record is the result, and a location without a record
    resolves to a route that matches nothing.  [fuel] bounds the number of
    records visited, redirects included. *)
Fixpoint navigate (fuel : nat) (table : list RouteConfig) (location : string)
  : option Route :=
  match fuel with
  | O => None
  | S fuel' =>
    match match_path table location with
    | None => Some {| fullPath := location; matched := None |}
    | Some record =>
      match redirect record with
      | Some target => navigate fuel' table target
      | None => Some {| fullPath := location; matched := Some record |}
      end
    end
  end.

(** The component the router view renders for a resolved route. *)
Definition rendered (route : Route) : option Component :=
  record ← matched route; component record.

End Router.

(** ** The Smith-Waterman listing of the article

    The article page of [CudaPart1.vue] prints a C++ class,
    [SmithWatermanAlgorithm], that aligns two sequences.  The listing is
    embedded here as it is printed: vectors and strings are lists, indexed
    by integers; [operator[]] outside a container is undefined behaviour and
    [substitution_matrix.at] on a missing key throws [std::out_of_range],
    both explicit failures of the model.  [int] is taken as the
    mathematical integers: the results below are about runs in which no
    [int] operation overflows. *)

Module SmithWaterman.

Local Open Scope Z_scope.

Inductive failure : Type :=
| out_of_range
| undefined_behaviour
| out_of_fuel.

Inductive outcome (A : Type) : Type :=
| Ok (a : A)
| Fail (e : failure).
Arguments Ok {A} a.
Arguments Fail {A} e.

#[export] Instance outcome_ret : MRet outcome := λ A a, Ok a.

#[export] Instance outcome_bind : MBind outcome := λ A B f m,
  match m with
  | Ok a => f a
  | Fail e => Fail e
  end.

(** [v.size()] *)
Definition size {A : Type} (v : list A) : Z := Z.of_nat (length v).

(** [v[k]] on a [std::vector], read and written. *)
Definition at_index {A : Type} (v : list A) (k : Z) : outcome A :=
  if decide (0 ≤ k)
  then match v !! Z.to_nat k with
       | Some x => Ok x
       | None => Fail undefined_behaviour
       end
  else Fail undefined_behaviour.

Definition set_index {A : Type} (v : list A) (k : Z) (x : A)
  : outcome (list A) :=
  if decide (0 ≤ k < size v)
  then Ok (<[Z.to_nat k := x]> v)
  else Fail undefined_behaviour.

(** [s[k]] on a [std::string]: position [s.size()] holds the terminator. *)
Definition char_at (s : list ascii) (k : Z) : outcome ascii :=
  if decide (k = size s) then Ok Ascii.zero else at_index s k.

(** The type [substitution_matrix_t] is not part of the listing; all the
    listing does with it is [at] on a pair of characters, so it is taken to
    be a finite map from such pairs to scores. *)
Abbreviation substitution_matrix_t := (gmap (ascii * ascii) Z).

Definition at_key (substitution_matrix : substitution_matrix_t)
  (key : ascii * ascii) : outcome Z :=
  match substitution_matrix !! key with
  | Some score => Ok score
  | None => Fail out_of_range
  end.

(** The helper [maximum] is not part of the listing either; it is taken to
    be the maximum of its two or three arguments, the [max] of the formula
    for [F(i,j)] that the article gives. *)
Definition maximum (a b : Z) : Z := Z.max a b.

Definition maximum3 (a b c : Z) : Z := Z.max a (Z.max b c).

(** The members of the class. *)
Record SmithWatermanAlgorithm : Type := mkSmithWaterman {
  scoring_matrix : list Z;
  backtracking_matrix : list ascii;
  first : list ascii;
  other : list ascii;
  row_size : Z;
  gap_penalty : Z
}.

Definition scoring_size (first other : list ascii) : Z :=
  (size first + 1) * (size other + 1).

Definition backtracking_size (first other : list ascii) : Z :=
  size first * size other.

(** The constructor. *)
Definition new (first other : list ascii) (gap_penalty : Z)
  : SmithWatermanAlgorithm :=
  {| scoring_matrix := replicate (Z.to_nat (scoring_size first other)) 0;
     backtracking_matrix :=
       replicate (Z.to_nat (backtracking_size first other)) Ascii.zero;
     first := first;
     other := other;
     row_size := size first + 1;
     gap_penalty := gap_penalty |}.

Definition with_scoring (sw : SmithWatermanAlgorithm) (m : list Z)
  : SmithWatermanAlgorithm :=
  {| scoring_matrix := m; backtracking_matrix := backtracking_matrix sw;
     first := first sw; other := other sw; row_size := row_size sw;
     gap_penalty := gap_penalty sw |}.

Definition with_backtracking (sw : SmithWatermanAlgorithm) (m : list ascii)
  : SmithWatermanAlgorithm :=
  {| scoring_matrix := scoring_matrix sw; backtracking_matrix := m;
     first := first sw; other := other sw; row_size := row_size sw;
     gap_penalty := gap_penalty sw |}.

(** [for (int i = init; i < bound; i++) body], for a body that changes
    neither [i] nor [bound]: [for_range] runs [count] iterations from [i]. *)
Fixpoint for_range {S : Type} (count : nat) (i : Z)
  (body : Z → S → outcome S) (s : S) : outcome S :=
  match count with
  | O => Ok s
  | Datatypes.S count' => s' ← body i s; for_range count' (i + 1) body s'
  end.

Definition for_loop {S : Type} (init bound : Z)
  (body : Z → S → outcome S) (s : S) : outcome S :=
  for_range (Z.to_nat (bound - init)) init body s.

(** [this->backtracking_matrix[backtracking_index] = direction] *)
Definition mark (sw : SmithWatermanAlgorithm) (backtracking_index : Z)
  (direction : ascii) : outcome SmithWatermanAlgorithm :=
  m ← set_index (backtracking_matrix sw) backtracking_index direction;
  Ok (with_backtracking sw m).

(** The body of the two loops of [fill_matrices].  Where C++ leaves the
    order of two reads open, they are taken from left to right. *)
Definition fill_cell (substitution_matrix : substitution_matrix_t)
  (i j : Z) (sw : SmithWatermanAlgorithm) : outcome SmithWatermanAlgorithm :=
  let diagonal_index := j * row_size sw + i in
  let top_index := diagonal_index + row_size sw in
  let left_index := diagonal_index + 1 in
  let current := top_index + 1 in
  let backtracking_index := diagonal_index - j in
  diagonal ← at_index (scoring_matrix sw) diagonal_index;
  a ← char_at (first sw) i;
  b ← char_at (other sw) j;
  score ← at_key substitution_matrix (a, b);
  let diagonal_value := maximum (diagonal + score) 0 in
  left ← at_index (scoring_matrix sw) left_index;
  let left_value := maximum (left - gap_penalty sw) 0 in
  top ← at_index (scoring_matrix sw) top_index;
  let top_value := maximum (top - gap_penalty sw) 0 in
  let max := maximum3 diagonal_value left_value top_value in
  m ← set_index (scoring_matrix sw) current max;
  let sw := with_scoring sw m in
  if decide (max > 0)
  then if decide (diagonal_value = max) then mark sw backtracking_index "D"
       else if decide (top_value = max) then mark sw backtracking_index "T"
       else if decide (left_value = max) then mark sw backtracking_index "L"
       else Ok sw
  else Ok sw.

Definition fill_matrices (substitution_matrix : substitution_matrix_t)
  (sw : SmithWatermanAlgorithm) : outcome SmithWatermanAlgorithm :=
  for_loop 0 (row_size sw - 1)
    (λ i sw,
       for_loop 0 (size (other sw))
         (λ j sw, fill_cell substitution_matrix i j sw) sw)
    sw.

(** The body of the two loops of [max_indices], on the triple
    [(max_i, max_j, max_value)]. *)
Definition max_cell (sw : SmithWatermanAlgorithm) (i j : Z)
  (best : Z * Z * Z) : outcome (Z * Z * Z) :=
  current_value ← at_index (scoring_matrix sw) (i + j * row_size sw);
  if decide (current_value > best.2)
  then Ok (i - 1, j - 1, current_value)
  else Ok best.

Definition max_indices (sw : SmithWatermanAlgorithm) : outcome (Z * Z) :=
  best ← for_loop 1 (row_size sw - 1 + 1)
           (λ i best,
              for_loop 1 (size (other sw) + 1)
                (λ j best, max_cell sw i j best) best)
           (0, 0, 0);
  Ok best.1.

(** The local variables of [backtrack]. *)
Record cursor : Type := mkCursor {
  current_i : Z;
  current_j : Z;
  first_string : list ascii;
  second_string : list ascii
}.

(** One turn of the [do ... while] of [backtrack]: the value read and the
    variables after the [switch]. *)
Definition backtrack_step (sw : SmithWatermanAlgorithm) (c : cursor)
  : outcome (ascii * cursor) :=
  value ← at_index (backtracking_matrix sw)
             (current_i c + current_j c * (row_size sw - 1));
  if decide (value = "D"%char) then
    a ← char_at (first sw) (current_i c);
    b ← char_at (other sw) (current_j c);
    Ok (value, {| current_i := current_i c - 1;
                  current_j := current_j c - 1;
                  first_string := first_string c ++ [a];
                  second_string := second_string c ++ [b] |})
  else if decide (value = "L"%char) then
    b ← char_at (other sw) (current_j c);
    Ok (value, {| current_i := current_i c;
                  current_j := current_j c - 1;
                  first_string := first_string c ++ ["-"%char];
                  second_string := second_string c ++ [b] |})
  else if decide (value = "T"%char) then
    a ← char_at (first sw) (current_i c);
    Ok (value, {| current_i := current_i c - 1;
                  current_j := current_j c;
                  first_string := first_string c ++ [a];
                  second_string := second_string c ++ ["-"%char] |})
  else Ok (value, c).

(** [do { ... } while (value != 0)]; [fuel] bounds the number of turns. *)
Fixpoint backtrack_loop (fuel : nat) (sw : SmithWatermanAlgorithm)
  (c : cursor) : outcome cursor :=
  match fuel with
  | O => Fail out_of_fuel
  | Datatypes.S fuel' =>
    turn ← backtrack_step sw c;
    if decide (turn.1 = Ascii.zero) then Ok turn.2
    else backtrack_loop fuel' sw turn.2
  end.

Definition backtrack (fuel : nat) (sw : SmithWatermanAlgorithm)
  : outcome (list ascii * list ascii) :=
  indices ← max_indices sw;
  c ← backtrack_loop fuel sw
        {| current_i := indices.1; current_j := indices.2;
           first_string := []; second_string := [] |};
  Ok (reverse (first_string c), reverse (second_string c)).

(** The matrices read by coordinates: [score sw i j] is the cell of the
    scoring matrix in column [i] and row [j], padding included, and
    [direction sw i j] the cell of the backtracking matrix, which has no
    padding. *)
Definition score (sw : SmithWatermanAlgorithm) (i j : Z) : Z :=
  default 0 (scoring_matrix sw !! Z.to_nat (i + j * row_size sw)).

Definition direction (sw : SmithWatermanAlgorithm) (i j : Z) : ascii :=
  default Ascii.zero
    (backtracking_matrix sw !! Z.to_nat (i + j * (row_size sw - 1))).



(** An object of the class for the sequences [x] and [y]: the members the
    constructor sets, and matrices of the sizes it allocates. *)
Definition shaped (x y : list ascii) (gap : Z) (sw : SmithWatermanAlgorithm)
  : Prop :=
  first sw = x ∧ other sw = y ∧ row_size sw = size x + 1
  ∧ gap_penalty sw = gap
  ∧ size (scoring_matrix sw) = scoring_size x y
  ∧ size (backtracking_matrix sw) = backtracking_size x y.





(** The cells [max_indices] has looked at when its loops reach
    [(i0, j0)], and what it holds then: a bound on all of them, reached at
    the position it remembers unless no cell was positive. *)
Definition scanned (x y : list ascii) (i0 j0 i j : Z) : Prop :=
  (1 ≤ i ≤ size x ∧ 1 ≤ j ≤ size y) ∧ (i < i0 ∨ (i = i0 ∧ j < j0)).

Definition best_so_far (x y : list ascii) (sw : SmithWatermanAlgorithm)
  (i0 j0 : Z) (best : Z * Z * Z) : Prop :=
  (∀ i j, scanned x y i0 j0 i j → score sw i j ≤ best.2)
  ∧ (best = (0, 0, 0)
     ∨ ((0 ≤ best.1.1 < size x ∧ 0 ≤ best.1.2 < size y)
        ∧ best.2 = score sw (best.1.1 + 1) (best.1.2 + 1) ∧ 0 < best.2)).


(** The example of the article: the sequences [Test1] and [Test2], "the
    alignment reward was 3 for all matching pairs, the gap penalty was 2".
    The article does not print the score of a mismatch; its scoring matrix
    is the one computed with [-3]. *)
Definition uniform_matrix (alphabet : list ascii) (reward mismatch : Z)
  : substitution_matrix_t :=
  list_to_map
    (a ← alphabet; b ← alphabet;
     [((a, b), if decide (a = b) then reward else mismatch)]).

Definition example_matrix : substitution_matrix_t :=
  uniform_matrix (String.list_ascii_of_string "ACGT") 3 (-3).

Definition Test1 : list ascii := String.list_ascii_of_string "CGGGTATCCAA".

Definition Test2 : list ascii := String.list_ascii_of_string "CCCTAGGTCCCA".

Definition example_filled : SmithWatermanAlgorithm :=
  match fill_matrices example_matrix (new Test1 Test2 2) with
  | Ok sw => sw
  | Fail _ => new Test1 Test2 2
  end.

(** The scores as the article prints them: one row for each character of
    the first sequence, one column for each character of the other. *)
Definition printed_scores (sw : SmithWatermanAlgorithm) : list (list Z) :=
  (λ i, (λ j, score sw (i + 1) (j + 1)) <$> seqZ 0 (size (other sw)))
  <$> seqZ 0 (size (first sw)).

End SmithWaterman.

Import Store.

(** ** The mutations, one run at a time *)

Section Mutations.

Implicit Types (w : World) (payload : value) (f : string) (b : bool).

(** The object literals [{ image: f }] and [{ value: b }]. *)
Definition image_payload (f : string) : value :=
  VObject {[ "image" := VString f ]}.

Definition value_payload (b : bool) : value :=
  VObject {[ "value" := VBool b ]}.

(** The callback of [cacheImages], as a function of the image name. *)
Definition preload : string → M unit := λ img,
  st' ← get_state; new_Image_src (base st' +:+ img).

(** The URLs [cacheImages] asks for on a given state. *)
Definition urls (st : State) : list string :=
  map (λ img, base st +:+ img) (images st).

(** A handler keeps a projection of the state when no run of it, on any
    payload and from any world, changes that projection. *)
Definition keeps {A : Type} (proj : State → A) (h : handler) : Prop :=
  ∀ payload w, proj (state (h payload w).2) = proj (state w).

(** The number of [cacheImages] commits of a session. *)
Fixpoint preloads (cs : list (string * value)) : nat :=
  match cs with
  | [] => 0
  | (type, _) :: rest =>
    (if String.eqb "cacheImages" type then 1 else 0) + preloads rest
  end.

Lemma forEach_preload (arr : list string) w :
  forEach arr preload w
  = (Normal (),
     {| state := state w;
        requests := requests w ++ map (λ img, base (state w) +:+ img) arr |}).
Proof.
  revert w. induction arr as [|img arr IH]; intros [st reqs]; simpl.
  - by rewrite app_nil_r.
  - unfold mbind, M_bind at 1. simpl. rewrite IH. simpl.
    by rewrite <- app_assoc.
Qed.

Lemma cacheImages_run payload w :
  cacheImages payload w
  = (Normal (), {| state := state w; requests := requests w ++ urls (state w) |}).
Proof. unfold cacheImages. apply (forEach_preload (images (state w)) w). Qed.

Lemma changeImage_object props w :
  changeImage (VObject props) w
  = (Normal (),
     {| state := set_image (default VUndefined (props !! "image")) (state w);
        requests := requests w |}).
Proof. reflexivity. Qed.

Lemma changeBackgroundInTransition_object props w :
  changeBackgroundInTransition (VObject props) w
  = (Normal (),
     {| state := set_backgroundInTransition
                   (default VUndefined (props !! "value")) (state w);
        requests := requests w |}).
Proof. reflexivity. Qed.

(** Whatever the payload, [changeImage] either throws before it writes or
    assigns [image] and nothing else. *)
Lemma changeImage_cases payload w :
  changeImage payload w = (Throw TypeError, w)
  ∨ ∃ v, changeImage payload w
         = (Normal (), {| state := set_image v (state w);
                          requests := requests w |}).
Proof. destruct payload; (by left) || (right; eexists; reflexivity). Qed.

Lemma changeBackgroundInTransition_cases payload w :
  changeBackgroundInTransition payload w = (Throw TypeError, w)
  ∨ ∃ v, changeBackgroundInTransition payload w
         = (Normal (), {| state := set_backgroundInTransition v (state w);
                          requests := requests w |}).
Proof. destruct payload; (by left) || (right; eexists; reflexivity). Qed.

End Mutations.

(** ** Frames: what a mutation leaves alone *)

Section Frame.

Context {A : Type} (proj : State → A).

(** The projection looks at neither [image] nor [backgroundInTransition]. *)
Hypothesis proj_set_image : ∀ v st, proj (set_image v st) = proj st.
Hypothesis proj_set_backgroundInTransition :
  ∀ v st, proj (set_backgroundInTransition v st) = proj st.

Lemma keeps_cacheImages_any {B : Type} (q : State → B) : keeps q cacheImages.
Proof. intros payload w. by rewrite cacheImages_run. Qed.

Lemma keeps_changeImage : keeps proj changeImage.
Proof.
  intros payload w.
  destruct (changeImage_cases payload w) as [-> | [v ->]]; simpl; auto.
Qed.

Lemma keeps_changeBackgroundInTransition :
  keeps proj changeBackgroundInTransition.
Proof.
  intros payload w.
  destruct (changeBackgroundInTransition_cases payload w) as [-> | [v ->]];
    simpl; auto.
Qed.

(** [commit] runs one of the three handlers or nothing at all. *)
Lemma commit_dispatch type payload w :
  commit type payload w = cacheImages payload w
  ∨ commit type payload w = changeImage payload w
  ∨ commit type payload w = changeBackgroundInTransition payload w
  ∨ commit type payload w = (Normal (), w).
Proof.
  unfold commit, lookup_mutation, mutations. cbn -[String.eqb].
  repeat (destruct (String.eqb _ type); cbn -[String.eqb]; [by auto |]).
  by repeat right.
Qed.

Lemma keeps_commit type : keeps proj (commit type).
Proof.
  intros payload w.
  destruct (commit_dispatch type payload w) as [-> | [-> | [-> | ->]]].
  - apply keeps_cacheImages_any.
  - apply keeps_changeImage.
  - apply keeps_changeBackgroundInTransition.
  - reflexivity.
Qed.

Lemma keeps_run_commits cs w :
  proj (state (run_commits cs w)) = proj (state w).
Proof.
  revert w. induction cs as [| [type payload] cs IH]; intros w; simpl.
  - reflexivity.
  - rewrite IH. apply keeps_commit.
Qed.

End Frame.

(** ** The store's properties *)

Section StoreProperties.

Implicit Types (w : World) (payload : value) (f : string) (b : bool).

(** C1. For every filename [f], running the image-change mutation
    [changeImage] on the payload [{ image: f }] completes normally and the
    [image] getter then returns exactly [f]; the same holds when the
    mutation is invoked through [commit]. *)
Theorem changeImage_getter f w :
  (changeImage (image_payload f) w).1 = Normal ()
  ∧ getters.image (state (changeImage (image_payload f) w).2) = VString f
  ∧ getters.image (state (commit "changeImage" (image_payload f) w).2)
    = VString f.
Proof.
  assert (commit "changeImage" (image_payload f) w
          = changeImage (image_payload f) w) as -> by reflexivity.
  unfold image_payload. rewrite changeImage_object, lookup_singleton_eq.
  by repeat split.
Qed.

(** C4. For every boolean [b], running the transition-flag mutation
    [changeBackgroundInTransition] on the payload [{ value: b }] completes
    normally and the [backgroundInTransition] getter then returns exactly
    [b]; the same holds when the mutation is invoked through [commit]. *)
Theorem changeBackgroundInTransition_getter b w :
  (changeBackgroundInTransition (value_payload b) w).1 = Normal ()
  ∧ getters.backgroundInTransition
      (state (changeBackgroundInTransition (value_payload b) w).2) = VBool b
  ∧ getters.backgroundInTransition
      (state (commit "changeBackgroundInTransition" (value_payload b) w).2)
    = VBool b.
Proof.
  assert (commit "changeBackgroundInTransition" (value_payload b) w
          = changeBackgroundInTransition (value_payload b) w) as ->
    by reflexivity.
  unfold value_payload.
  rewrite changeBackgroundInTransition_object, lookup_singleton_eq.
  by repeat split.
Qed.

(** C2. The preload mutation [cacheImages] completes normally and issues
    exactly one image request per entry of [images]: the requests it adds
    to the log are the entries of [images], in order, each prefixed with
    [base]. *)
Theorem cacheImages_requests payload w :
  (cacheImages payload w).1 = Normal ()
  ∧ requests (cacheImages payload w).2
    = (requests w
       ++ map (λ img, base (state w) +:+ img) (images (state w)))%list
  ∧ length (requests (cacheImages payload w).2)
    = length (requests w) + length (images (state w)).
Proof.
  rewrite cacheImages_run. simpl. unfold urls.
  repeat split. by rewrite length_app, length_map.
Qed.

(** C9. The preload mutation leaves the whole store state as it was: the
    world after it differs from the world before only by the requests
    appended to the log, so [base], [images], [image] and
    [backgroundInTransition] keep their values. *)
Theorem cacheImages_state_unchanged payload w :
  (∃ fetched,
     cacheImages payload w
     = (Normal (), {| state := state w; requests := requests w ++ fetched |}))
  ∧ base (state (cacheImages payload w).2) = base (state w)
  ∧ images (state (cacheImages payload w).2) = images (state w)
  ∧ image (state (cacheImages payload w).2) = image (state w)
  ∧ backgroundInTransition (state (cacheImages payload w).2)
    = backgroundInTransition (state w).
Proof.
  split.
  - exists (urls (state w)). apply cacheImages_run.
  - repeat split; apply keeps_cacheImages_any.
Qed.

(** C6. [base] is constant: none of the three mutations changes it, on any
    payload and from any world, and after any sequence of commits on the
    initial store it still has its initial value. *)
Theorem base_constant :
  keeps base cacheImages
  ∧ keeps base changeImage
  ∧ keeps base changeBackgroundInTransition
  ∧ ∀ cs, base (state (run_commits cs initial_world)) = base initial_state.
Proof.
  split; [| split; [| split]].
  - apply keeps_cacheImages_any.
  - by apply keeps_changeImage.
  - by apply keeps_changeBackgroundInTransition.
  - intros cs. by rewrite keeps_run_commits.
Qed.

(** C7. [images] is fixed: none of the three mutations changes the list
    (same elements, same order), on any payload and from any world, and
    after any sequence of commits on the initial store it is still the
    initial list. *)
Theorem images_fixed :
  keeps images cacheImages
  ∧ keeps images changeImage
  ∧ keeps images changeBackgroundInTransition
  ∧ ∀ cs, images (state (run_commits cs initial_world)) = images initial_state.
Proof.
  split; [| split; [| split]].
  - apply keeps_cacheImages_any.
  - by apply keeps_changeImage.
  - by apply keeps_changeBackgroundInTransition.
  - intros cs. by rewrite keeps_run_commits.
Qed.

(** C8. [changeImage] does not look at [images]: for every string [f] the
    run on [{ image: f }] completes normally, with no error result, and its
    only write is [image := f].  A name outside the list is accepted like
    any other, as ["7.png"] on the initial store. *)
Theorem changeImage_no_validation :
  (∀ f w,
     changeImage (image_payload f) w
     = (Normal (), {| state := set_image (VString f) (state w);
                      requests := requests w |}))
  ∧ ("7.png" ∉ images initial_state)
  ∧ image (state (changeImage (image_payload "7.png") initial_world).2)
    = VString "7.png".
Proof.
  split; [| split].
  - intros f w. unfold image_payload.
    by rewrite changeImage_object, lookup_singleton_eq.
  - unfold initial_state; simpl. intros Hin.
    repeat (apply elem_of_cons in Hin as [Heq | Hin]; [discriminate Heq |]).
    by apply elem_of_nil in Hin.
  - unfold image_payload.
    by rewrite changeImage_object, lookup_singleton_eq.
Qed.

(** C10. Each setter writes its own field only: on every payload,
    [changeImage] keeps [backgroundInTransition], [base] and [images], and
    [changeBackgroundInTransition] keeps [image], [base] and [images]. *)
Theorem setters_frame :
  (keeps backgroundInTransition changeImage
   ∧ keeps base changeImage
   ∧ keeps images changeImage)
  ∧ (keeps image changeBackgroundInTransition
     ∧ keeps base changeBackgroundInTransition
     ∧ keeps images changeBackgroundInTransition).
Proof.
  split; repeat split; intros payload w.
  1-3: by destruct (changeImage_cases payload w) as [-> | [v ->]].
  all: by destruct (changeBackgroundInTransition_cases payload w)
            as [-> | [v ->]].
Qed.

End StoreProperties.

(** On the initial store, [cacheImages] asks for the six backgrounds. *)
Example cacheImages_initial :
  requests (cacheImages VUndefined initial_world).2
  = [ "https://raw.githubusercontent.com/MSusik/msusik.github.io/development/src/assets/backs/1.png";
      "https://raw.githubusercontent.com/MSusik/msusik.github.io/development/src/assets/backs/2.png";
      "https://raw.githubusercontent.com/MSusik/msusik.github.io/development/src/assets/backs/3.png";
      "https://raw.githubusercontent.com/MSusik/msusik.github.io/development/src/assets/backs/4.png";
      "https://raw.githubusercontent.com/MSusik/msusik.github.io/development/src/assets/backs/5.png";
      "https://raw.githubusercontent.com/MSusik/msusik.github.io/development/src/assets/backs/6.png" ].
Proof. reflexivity. Qed.

(** A commit without a payload makes [changeImage] throw, and the store is
    as it was. *)
Example changeImage_undefined :
  commit "changeImage" VUndefined initial_world
  = (Throw TypeError, initial_world).
Proof. reflexivity. Qed.

(** ** The route tables' properties *)

Import Router.

Section RouterProperties.

(** C3. In both tables the entry for [/] is a redirect to the variant's
    default article path and maps no component, and navigating to [/] ends
    on that default route: the path shown is the redirect target and the
    record matched is the target's own. *)
Theorem root_redirects_to_default :
  (match_path routes "/"
   = Some {| path := "/"; name := None;
             redirect := Some "/implementing_smith_waterman_on_CUDA_part_1";
             component := None |}
   ∧ ∀ fuel,
       navigate (S (S fuel)) routes "/"
       = Some {| fullPath := "/implementing_smith_waterman_on_CUDA_part_1";
                 matched :=
                   Some {| path := "/implementing_smith_waterman_on_CUDA_part_1";
                           name := Some "CudaPart1"; redirect := None;
                           component := Some CudaPart1 |} |})
  ∧ (match_path routes_about "/"
     = Some {| path := "/"; name := None; redirect := Some "/upmath";
               component := None |}
     ∧ ∀ fuel,
         navigate (S (S fuel)) routes_about "/"
         = Some {| fullPath := "/upmath";
                   matched :=
                     Some {| path := "/upmath"; name := Some "Upmath";
                             redirect := None;
                             component := Some Upmath |} |}).
Proof. repeat split. Qed.

(** C5. Each table has exactly three entries: [/], [/upmath] mapped to
    [Upmath], and [/implementing_smith_waterman_on_CUDA_part_1] mapped to
    [CudaPart1] in one variant, [/about] mapped to [About] in the other.
    Navigating to [/upmath] renders [Upmath], and navigating to the third
    entry's path renders its component. *)
Theorem routes_three_entries :
  (map (λ record, (path record, component record)) routes
   = [ ("/", None); ("/upmath", Some Upmath);
       ("/implementing_smith_waterman_on_CUDA_part_1", Some CudaPart1) ]
   ∧ ∀ fuel,
       rendered <$> navigate (S fuel) routes "/upmath" = Some (Some Upmath)
       ∧ rendered
           <$> navigate (S fuel) routes
                 "/implementing_smith_waterman_on_CUDA_part_1"
         = Some (Some CudaPart1))
  ∧ (map (λ record, (path record, component record)) routes_about
     = [ ("/", None); ("/upmath", Some Upmath); ("/about", Some About) ]
     ∧ ∀ fuel,
         rendered <$> navigate (S fuel) routes_about "/upmath"
         = Some (Some Upmath)
         ∧ rendered <$> navigate (S fuel) routes_about "/about"
           = Some (Some About)).
Proof. repeat split. Qed.

End RouterProperties.

(** ** Sessions: how the mutations compose *)

Section Sessions.

Implicit Types (w : World) (payload : value) (f : string)
  (cs : list (string * value)).

Lemma run_commits_app cs cs' w :
  run_commits (cs ++ cs') w = run_commits cs' (run_commits cs w).
Proof.
  revert w. induction cs as [| [type payload] cs IH]; intros w; simpl; auto.
Qed.

(** What one commit adds to the request log. *)
Lemma commit_requests type payload w :
  requests (commit type payload w).2
  = (requests w
     ++ if String.eqb "cacheImages" type then urls (state w) else [])%list.
Proof.
  unfold commit, lookup_mutation, mutations. cbn -[String.eqb].
  destruct (String.eqb "cacheImages" type); cbn -[String.eqb].
  { by rewrite cacheImages_run. }
  rewrite app_nil_r.
  destruct (String.eqb "changeImage" type); cbn -[String.eqb].
  { by destruct (changeImage_cases payload w) as [-> | [v ->]]. }
  destruct (String.eqb "changeBackgroundInTransition" type); cbn -[String.eqb].
  { by destruct (changeBackgroundInTransition_cases payload w)
         as [-> | [v ->]]. }
  reflexivity.
Qed.

Lemma urls_commit type payload w :
  urls (state (commit type payload w).2) = urls (state w).
Proof.
  unfold urls.
  by rewrite (keeps_commit base), (keeps_commit images).
Qed.

Lemma run_commits_requests cs w :
  requests (run_commits cs w)
  = (requests w ++ concat (replicate (preloads cs) (urls (state w))))%list.
Proof.
  revert w.
  induction cs as [| [type payload] cs IH]; intros w; cbn -[String.eqb].
  - by rewrite app_nil_r.
  - rewrite IH, commit_requests, urls_commit, <- app_assoc.
    by destruct (String.eqb "cacheImages" type).
Qed.

(** A commit of another type leaves [image] alone. *)
Lemma commit_keeps_image type payload w :
  type ≠ "changeImage" →
  image (state (commit type payload w).2) = image (state w).
Proof.
  intros Hne. unfold commit, lookup_mutation, mutations. cbn -[String.eqb].
  destruct (String.eqb "cacheImages" type); cbn -[String.eqb].
  { by rewrite cacheImages_run. }
  destruct (String.eqb_spec "changeImage" type) as [Heq | _];
    cbn -[String.eqb]; [by destruct Hne |].
  destruct (String.eqb "changeBackgroundInTransition" type); cbn -[String.eqb].
  { by destruct (changeBackgroundInTransition_cases payload w)
         as [-> | [v ->]]. }
  reflexivity.
Qed.

Lemma run_commits_keeps_image cs w :
  Forall (λ c, c.1 ≠ "changeImage") cs →
  image (state (run_commits cs w)) = image (state w).
Proof.
  intros Hcs. revert w.
  induction Hcs as [| [type payload] cs Hne _ IH]; intros w; simpl; auto.
  rewrite IH. by apply commit_keeps_image.
Qed.

End Sessions.

Section SessionProperties.

Implicit Types (w : World) (payload : value) (f : string)
  (cs : list (string * value)).

Lemma elem_of_concat_replicate {A : Type} (x : A) (n : nat) (l : list A) :
  x ∈ concat (replicate n l) → x ∈ l.
Proof.
  induction n as [| n IH]; simpl.
  - intros Hin. by apply elem_of_nil in Hin.
  - intros [Hin | Hin]%elem_of_app; auto.
Qed.

(** X1. The request log of a session is the log before it followed by one
    copy of the preload URLs for each [cacheImages] commit: every preload
    asks for every image again, and no other commit asks for anything. *)
Theorem session_request_log cs w :
  requests (run_commits cs w)
  = (requests w ++ concat (replicate (preloads cs) (urls (state w))))%list
  ∧ length (requests (run_commits cs w))
    = length (requests w) + preloads cs * length (images (state w)).
Proof.
  rewrite run_commits_requests. split; [reflexivity |].
  rewrite length_app. f_equal.
  induction (preloads cs) as [| n IH]; simpl; [reflexivity |].
  rewrite length_app, IH. unfold urls. by rewrite length_map.
Qed.

(** X2. Whatever is committed, a URL in the request log was either there
    before the session or is [base] followed by an entry of [images]: the
    store never asks for anything outside its own list of backgrounds. *)
Theorem session_requests_from_images cs w (url : string) :
  url ∈ requests (run_commits cs w) →
  url ∈ requests w
  ∨ ∃ img, img ∈ images (state w) ∧ url = base (state w) +:+ img.
Proof.
  rewrite run_commits_requests.
  intros [Hold | Hnew]%elem_of_app; [by left | right].
  apply elem_of_concat_replicate in Hnew. unfold urls in Hnew.
  apply list_elem_of_In, in_map_iff in Hnew as (img & Heq & Hin).
  exists img. split; [by apply list_elem_of_In | done].
Qed.

Lemma session_requests_from_images_witness :
  ∃ img, img ∈ images initial_state
         ∧ "https://raw.githubusercontent.com/MSusik/msusik.github.io/development/src/assets/backs/3.png"
           = base initial_state +:+ img.
Proof.
  destruct (session_requests_from_images
              [("changeImage", image_payload "3.png");
               ("cacheImages", VUndefined)]
              initial_world
              "https://raw.githubusercontent.com/MSusik/msusik.github.io/development/src/assets/backs/3.png")
    as [Hold | Hnew].
  - vm_compute. do 2 right. left.
  - vm_compute in Hold. by apply elem_of_nil in Hold.
  - exact Hnew.
Defined.

(** X3. A setter throws exactly when it is committed without a payload
    ([undefined] or [null]): the destructuring of the parameter raises a
    [TypeError] before anything is written, so the world is as it was.  On
    every other payload both setters complete normally. *)
Theorem setters_throw_without_payload payload w :
  match payload with
  | VUndefined | VNull =>
    changeImage payload w = (Throw TypeError, w)
    ∧ changeBackgroundInTransition payload w = (Throw TypeError, w)
  | _ =>
    (changeImage payload w).1 = Normal ()
    ∧ (changeBackgroundInTransition payload w).1 = Normal ()
  end.
Proof. by destruct payload. Qed.

(** X4. A payload object that lacks the property a setter reads is not
    rejected: the setter stores [undefined] in its field. *)
Theorem setters_missing_key (props : gmap string value) w :
  (props !! "image" = None →
   changeImage (VObject props) w
   = (Normal (), {| state := set_image VUndefined (state w);
                    requests := requests w |}))
  ∧ (props !! "value" = None →
     changeBackgroundInTransition (VObject props) w
     = (Normal (), {| state := set_backgroundInTransition VUndefined (state w);
                      requests := requests w |})).
Proof.
  split; intros Hnone.
  - by rewrite changeImage_object, Hnone.
  - by rewrite changeBackgroundInTransition_object, Hnone.
Qed.

Lemma setters_missing_key_witness :
  image (state (changeImage (value_payload true) initial_world).2)
  = VUndefined
  ∧ backgroundInTransition
      (state (changeBackgroundInTransition (image_payload "1.png")
                initial_world).2)
    = VUndefined.
Proof.
  split.
  - destruct (setters_missing_key {[ "value" := VBool true ]} initial_world)
      as [Himage _].
    unfold value_payload. rewrite Himage; reflexivity.
  - destruct (setters_missing_key {[ "image" := VString "1.png" ]}
                initial_world) as [_ Hvalue].
    unfold image_payload. rewrite Hvalue; reflexivity.
Defined.

(** X5. The last write wins: after a setter has run on an object payload,
    nothing is left of an earlier run of the same setter, whatever its
    payload was. *)
Theorem setters_last_write_wins payload (props : gmap string value) w :
  changeImage (VObject props) (changeImage payload w).2
  = changeImage (VObject props) w
  ∧ changeBackgroundInTransition (VObject props)
      (changeBackgroundInTransition payload w).2
    = changeBackgroundInTransition (VObject props) w.
Proof. by destruct payload. Qed.

(** X6. Mutations of different types commute: the world after two of them
    does not depend on the order in which they ran, whatever their
    payloads. *)
Theorem mutations_commute (p q : value) w :
  (changeBackgroundInTransition q (changeImage p w).2).2
  = (changeImage p (changeBackgroundInTransition q w).2).2
  ∧ (changeImage p (cacheImages q w).2).2
    = (cacheImages q (changeImage p w).2).2
  ∧ (changeBackgroundInTransition p (cacheImages q w).2).2
    = (cacheImages q (changeBackgroundInTransition p w).2).2.
Proof.
  split; [| split].
  - by destruct p, q.
  - rewrite !cacheImages_run. by destruct p.
  - rewrite !cacheImages_run. by destruct p.
Qed.

(** X7. The [image] getter shows what the latest [changeImage] commit
    stored: commits of the other types that come after it, and everything
    that came before it, make no difference. *)
Theorem latest_changeImage_wins cs cs' f w :
  Forall (λ c, c.1 ≠ "changeImage") cs' →
  getters.image
    (state (run_commits (cs ++ ("changeImage", image_payload f) :: cs') w))
  = VString f.
Proof.
  intros Hcs'. rewrite run_commits_app. cbn [run_commits].
  unfold getters.image. rewrite run_commits_keeps_image by done.
  assert (commit "changeImage" (image_payload f) (run_commits cs w)
          = changeImage (image_payload f) (run_commits cs w)) as ->
    by reflexivity.
  unfold image_payload.
  by rewrite changeImage_object, lookup_singleton_eq.
Qed.

Lemma latest_changeImage_wins_witness :
  getters.image
    (state (run_commits
              ([("changeImage", image_payload "1.png")]
               ++ ("changeImage", image_payload "5.png")
                  :: [("cacheImages", VUndefined);
                      ("changeBackgroundInTransition", value_payload true)])
              initial_world))
  = VString "5.png".
Proof.
  apply (latest_changeImage_wins
           [("changeImage", image_payload "1.png")]
           [("cacheImages", VUndefined);
            ("changeBackgroundInTransition", value_payload true)]
           "5.png" initial_world).
  repeat constructor; simpl; discriminate.
Defined.

End SessionProperties.

(** ** Navigation on any table, and on the two tables of the site *)

Section NavigationProperties.

Implicit Types (table : list RouteConfig) (location : string) (fuel : nat).






End NavigationProperties.

(** ** The Smith-Waterman listing: the loops and their invariant *)

Import SmithWaterman.

Section Loops.

Local Open Scope Z_scope.

Context {S : Type}.

Implicit Types (body : Z → S → outcome S) (s : S).

(** A loop keeps an invariant [I] when its body does, and fails in a way
    [E] describes when its body does. *)
Lemma for_range_spec (I : Z → S → Prop) (E : failure → Prop)
    body (count : nat) (lo : Z) s :
  I lo s →
  (∀ k s', lo ≤ k < lo + Z.of_nat count → I k s' →
     match body k s' with Ok s'' => I (k + 1) s'' | Fail e => E e end) →
  match for_range count lo body s with
  | Ok s' => I (lo + Z.of_nat count) s'
  | Fail e => E e
  end.
Proof.
  revert lo s. induction count as [| count IH]; intros lo s Hlo Hbody.
  - simpl. by rewrite Z.add_0_r.
  - cbn [for_range]. specialize (Hbody lo s ltac:(lia) Hlo) as Hstep.
    destruct (body lo s) as [s1 | e]; simpl; [| done].
    replace (lo + Z.of_nat (Datatypes.S count))
      with (lo + 1 + Z.of_nat count) by lia.
    apply IH; [done |]. intros k s' Hk. apply Hbody. lia.
Qed.

Lemma for_loop_spec (I : Z → S → Prop) (E : failure → Prop)
    body (init bound : Z) s :
  init ≤ bound →
  I init s →
  (∀ k s', init ≤ k < bound → I k s' →
     match body k s' with Ok s'' => I (k + 1) s'' | Fail e => E e end) →
  match for_loop init bound body s with
  | Ok s' => I bound s'
  | Fail e => E e
  end.
Proof.
  intros Hle Hinit Hbody. unfold for_loop.
  pose proof (for_range_spec I E body (Z.to_nat (bound - init)) init s Hinit)
    as Hspec.
  replace (init + Z.of_nat (Z.to_nat (bound - init))) with bound in Hspec
    by lia.
  apply Hspec. intros k s' Hk. apply Hbody. lia.
Qed.

End Loops.

Section Cells.

Local Open Scope Z_scope.

Implicit Types (sw : SmithWatermanAlgorithm) (x y : list ascii)
  (i j k gap : Z).

Lemma size_nonneg {A : Type} (v : list A) : 0 ≤ size v.
Proof. unfold size. lia. Qed.


Lemma at_index_lookup {A : Type} (v : list A) (k : Z) (d : A) :
  0 ≤ k < size v → at_index v k = Ok (default d (v !! Z.to_nat k)).
Proof.
  intros Hk. unfold at_index. rewrite decide_True by lia.
  destruct (lookup_lt_is_Some_2 v (Z.to_nat k)) as [a ->]; [| done].
  unfold size in Hk. lia.
Qed.





(** The cells of a shaped object, read through [operator[]]. *)
Lemma at_index_score x y gap sw i j k :
  shaped x y gap sw → 0 ≤ i ≤ size x → 0 ≤ j ≤ size y →
  k = i + j * row_size sw →
  at_index (scoring_matrix sw) k = Ok (score sw i j).
Proof.
  intros (_ & _ & Hrow & _ & Hsize & _) Hi Hj ->. unfold score.
  apply at_index_lookup. rewrite Hsize, Hrow. unfold scoring_size. nia.
Qed.


End Cells.

Section FillCell.

Local Open Scope Z_scope.

Context (substitution_matrix : gmap (ascii * ascii) Z) (x y : list ascii)
  (gap : Z).

Implicit Types (sw : SmithWatermanAlgorithm) (i j : Z).











End FillCell.

Section Filled.

Local Open Scope Z_scope.

Context (substitution_matrix : gmap (ascii * ascii) Z) (x y : list ascii)
  (gap : Z).

Implicit Types (sw : SmithWatermanAlgorithm) (i j : Z).





End Filled.

Section FillProperties.

Local Open Scope Z_scope.

Context (substitution_matrix : gmap (ascii * ascii) Z) (x y : list ascii)
  (gap : Z).

Implicit Types (sw : SmithWatermanAlgorithm) (i j : Z) (a b : ascii).






End FillProperties.

Section MaxIndices.

Local Open Scope Z_scope.

Context (x y : list ascii) (gap : Z).

Implicit Types (sw : SmithWatermanAlgorithm) (i j : Z) (best : Z * Z * Z).

Lemma max_cell_step sw i j best :
  shaped x y gap sw → 1 ≤ i ≤ size x → 1 ≤ j ≤ size y →
  best_so_far x y sw i j best →
  ∃ best', max_cell sw i j best = Ok best'
           ∧ best_so_far x y sw i (j + 1) best'.
Proof.
  intros Hshaped Hi Hj [Hbound Hbest]. unfold max_cell.
  rewrite (at_index_score x y gap sw i j) by (done || lia).
  cbn [mbind outcome_bind].
  assert (0 ≤ best.2) as Hnonneg.
  { destruct Hbest as [-> | (_ & _ & Hpos)]; simpl; lia. }
  destruct (decide (score sw i j > best.2)) as [Hgt | Hle].
  - eexists. split; [done |]. split.
    + intros i' j' [Hrange Hbefore]. cbn [snd].
      destruct (decide (i' = i ∧ j' = j)) as [[-> ->] | Hne]; [lia |].
      specialize (Hbound i' j'). unfold scanned in Hbound. lia.
    + right. cbn [fst snd].
      replace (i - 1 + 1) with i by lia. replace (j - 1 + 1) with j by lia.
      lia.
  - exists best. split; [done |]. split; [| done].
    intros i' j' [Hrange Hbefore].
    destruct (decide (i' = i ∧ j' = j)) as [[-> ->] | Hne]; [lia |].
    apply Hbound. unfold scanned. lia.
Qed.

Lemma max_row_spec sw i best :
  shaped x y gap sw → 1 ≤ i ≤ size x →
  best_so_far x y sw i 0 best →
  ∃ best', for_loop 1 (size y + 1) (λ j best, max_cell sw i j best) best
           = Ok best'
           ∧ best_so_far x y sw (i + 1) 0 best'.
Proof.
  intros Hshaped Hi [Hbound Hpos].
  pose proof (for_loop_spec
                (λ j best, best_so_far x y sw i j best) (λ _, False)
                (λ j best, max_cell sw i j best)
                1 (size y + 1) best) as Hinner.
  destruct (for_loop 1 (size y + 1) _ best) as [best' | e].
  - exists best'. split; [done |].
    destruct Hinner as [Hbound' Hpos'].
    + pose proof (size_nonneg y). lia.
    + split; [| done]. intros i' j' Hs. apply Hbound.
      unfold scanned in *. lia.
    + intros j best'' Hj Hbest''.
      destruct (max_cell_step sw i j best'') as (b & -> & Hb); (done || lia).
    + split; [| done]. intros i' j' Hs. apply Hbound'.
      unfold scanned in *. lia.
  - exfalso. apply Hinner.
    + pose proof (size_nonneg y). lia.
    + split; [| done]. intros i' j' Hs. apply Hbound.
      unfold scanned in *. lia.
    + intros j best'' Hj Hbest''.
      destruct (max_cell_step sw i j best'') as (b & -> & Hb); (done || lia).
Qed.

(** The two loops of [max_indices] on a shaped object. *)
Lemma max_indices_spec sw :
  shaped x y gap sw →
  ∃ best, max_indices sw = Ok best.1
          ∧ best_so_far x y sw (size x + 1) 0 best.
Proof.
  intros Hshaped. pose proof Hshaped as (_ & Hother & Hrow & _).
  unfold max_indices. rewrite Hrow, Hother.
  replace (size x + 1 - 1 + 1) with (size x + 1) by lia.
  pose proof (for_loop_spec
                (λ i best, best_so_far x y sw i 0 best) (λ _, False)
                (λ i best,
                   for_loop 1 (size y + 1)
                     (λ j best, max_cell sw i j best) best)
                1 (size x + 1) (0, 0, 0)) as Houter.
  assert (best_so_far x y sw 1 0 (0, 0, 0)) as Hinit.
  { split; [| by left]. intros i j [Hrange Hbefore]. lia. }
  assert (∀ i best,
            1 ≤ i < size x + 1 → best_so_far x y sw i 0 best →
            match for_loop 1 (size y + 1)
                    (λ j best, max_cell sw i j best) best with
            | Ok best' => best_so_far x y sw (i + 1) 0 best'
            | Fail _ => False
            end) as Hbody.
  { intros i best Hi Hbest.
    destruct (max_row_spec sw i best) as (best' & -> & Hbest');
      (done || lia). }
  pose proof (size_nonneg x) as Hx.
  destruct (for_loop 1 (size x + 1) _ (0, 0, 0)) as [best | e].
  - exists best. split; [done |]. apply Houter; (done || lia).
  - exfalso. apply Houter; (done || lia).
Qed.

End MaxIndices.

Section Backtrack.

Local Open Scope Z_scope.

Context (substitution_matrix : gmap (ascii * ascii) Z) (x y : list ascii)
  (gap : Z).

Implicit Types (sw : SmithWatermanAlgorithm) (c : cursor) (e : failure).

(** X15. On an object with matrices of the constructor's sizes,
    [max_indices] reads inside the scoring matrix only and returns the
    position of a largest score when some score is positive, and [(0, 0)]
    when none is. *)
Theorem max_indices_finds_maximum sw :
  shaped x y gap sw →
  ∃ max_i max_j,
    max_indices sw = Ok (max_i, max_j)
    ∧ ((max_i = 0 ∧ max_j = 0
        ∧ ∀ i j, 0 ≤ i < size x → 0 ≤ j < size y →
                 score sw (i + 1) (j + 1) ≤ 0)
       ∨ ((0 ≤ max_i < size x ∧ 0 ≤ max_j < size y)
          ∧ 0 < score sw (max_i + 1) (max_j + 1)
          ∧ ∀ i j, 0 ≤ i < size x → 0 ≤ j < size y →
                   score sw (i + 1) (j + 1)
                   ≤ score sw (max_i + 1) (max_j + 1))).
Proof.
  intros Hshaped.
  destruct (max_indices_spec x y gap sw Hshaped)
    as ([[max_i max_j] max_value] & Hrun & Hbound & Hbest).
  exists max_i, max_j. split; [done |]. cbn [fst snd] in *.
  assert (∀ i j, 0 ≤ i < size x → 0 ≤ j < size y →
                 score sw (i + 1) (j + 1) ≤ max_value) as Hall.
  { intros i j Hi Hj. apply Hbound. unfold scanned. lia. }
  destruct Hbest as [[= -> -> ->] | (Hrange & -> & Hpos)].
  - left. done.
  - right. done.
Qed.










End Backtrack.

Section EmptySequence.

Local Open Scope Z_scope.

Context (substitution_matrix : gmap (ascii * ascii) Z) (gap : Z).

Lemma for_range_idle {S : Type} (body : Z → S → outcome S) (count : nat)
    (lo : Z) (s : S) :
  (∀ k, body k s = Ok s) → for_range count lo body s = Ok s.
Proof.
  intros Hidle. revert lo. induction count as [| count IH]; intros lo.
  - done.
  - cbn [for_range]. rewrite Hidle. cbn [mbind outcome_bind]. apply IH.
Qed.

(** X17. When one of the two sequences is empty, [fill_matrices] writes
    nothing and never consults the substitution matrix, and [backtrack]
    then reads element [0] of an empty backtracking matrix, which is
    undefined behaviour: the listing has no guard for empty input. *)
Theorem backtrack_empty_sequence (x y : list ascii) (fuel : nat) :
  x = [] ∨ y = [] →
  fill_matrices substitution_matrix (new x y gap) = Ok (new x y gap)
  ∧ backtrack (Datatypes.S fuel) (new x y gap) = Fail undefined_behaviour.
Proof.
  intros [-> | ->].
  - split; [done |]. done.
  - split.
    + unfold fill_matrices, for_loop. by apply for_range_idle.
    + unfold backtrack, max_indices, for_loop.
      rewrite for_range_idle by done.
      cbn [mbind outcome_bind fst snd backtrack_loop].
      unfold backtrack_step, at_index. cbn [current_i current_j].
      rewrite decide_True by done.
      cbn [backtracking_matrix new]. unfold backtracking_size.
      cbn [size length]. by rewrite Z.mul_0_r.
Qed.

End EmptySequence.

Lemma backtrack_empty_sequence_witness :
  fill_matrices ∅ (new [] ["A"%char; "C"%char] 2)
  = Ok (new [] ["A"%char; "C"%char] 2)
  ∧ backtrack 1 (new [] ["A"%char; "C"%char] 2) = Fail undefined_behaviour.
Proof.
  apply (backtrack_empty_sequence ∅ 2 [] ["A"%char; "C"%char] 0).
  left. reflexivity.
Defined.

(** ** The listing on the example of the article *)

Section ArticleExample.

Local Open Scope Z_scope.

Lemma example_fill :
  fill_matrices example_matrix (new Test1 Test2 2) = Ok example_filled.
Proof. vm_compute. reflexivity. Qed.

(** The scoring matrix, the row of the best score and the alignment are
    the ones the article prints under SCORING MATRIX and BEST ALIGNMENT. *)
Example example_scores :
  printed_scores example_filled
  = [ [3; 3; 3; 1; 0; 0; 0; 0; 3; 3; 3; 1];
      [1; 1; 1; 0; 0; 3; 3; 1; 1; 1; 1; 0];
      [0; 0; 0; 0; 0; 3; 6; 4; 2; 0; 0; 0];
      [0; 0; 0; 0; 0; 3; 6; 4; 2; 0; 0; 0];
      [0; 0; 0; 3; 1; 1; 4; 9; 7; 5; 3; 1];
      [0; 0; 0; 1; 6; 4; 2; 7; 6; 4; 2; 6];
      [0; 0; 0; 3; 4; 3; 1; 5; 4; 3; 1; 4];
      [3; 3; 3; 1; 2; 1; 0; 3; 8; 7; 6; 4];
      [3; 6; 6; 4; 2; 0; 0; 1; 6; 11; 10; 8];
      [1; 4; 4; 3; 7; 5; 3; 1; 4; 9; 8; 13];
      [0; 2; 2; 1; 6; 4; 2; 0; 2; 7; 6; 11] ].
Proof. vm_compute. reflexivity. Qed.

Example example_alignment :
  backtrack 200 example_filled
  = Ok (String.list_ascii_of_string "GGTATCCA",
        String.list_ascii_of_string "GGT-CCCA").
Proof. vm_compute. reflexivity. Qed.

(** The backtracking matrix has no padding: a path that leaves it on the
    left comes back in at the end of the row above.  Here the best
    alignment starts in the first column, the cell read next holds a
    direction, and [backtrack] reads [first[-1]]. *)
Example backtrack_leaves_matrix :
  (fill_matrices example_matrix
     (new (String.list_ascii_of_string "AC")
        (String.list_ascii_of_string "CTAC") 2)
   ≫= backtrack 200)
  = Fail undefined_behaviour.
Proof. vm_compute. reflexivity. Qed.






Lemma max_indices_finds_maximum_witness :
  ∃ max_i max_j,
    max_indices example_filled = Ok (max_i, max_j)
    ∧ ((max_i = 0 ∧ max_j = 0
        ∧ ∀ i j, 0 ≤ i < size Test1 → 0 ≤ j < size Test2 →
                 score example_filled (i + 1) (j + 1) ≤ 0)
       ∨ ((0 ≤ max_i < size Test1 ∧ 0 ≤ max_j < size Test2)
          ∧ 0 < score example_filled (max_i + 1) (max_j + 1)
          ∧ ∀ i j, 0 ≤ i < size Test1 → 0 ≤ j < size Test2 →
                   score example_filled (i + 1) (j + 1)
                   ≤ score example_filled (max_i + 1) (max_j + 1))).
Proof.
  apply (max_indices_finds_maximum Test1 Test2 2 example_filled).
  repeat split; vm_compute; reflexivity.
Defined.


End ArticleExample.

(** ** The listing at the edges of the matrices *)

Section Edges.

Local Open Scope Z_scope.

Context (substitution_matrix : gmap (ascii * ascii) Z) (x y : list ascii)
  (gap : Z).

Implicit Types (sw : SmithWatermanAlgorithm) (i j : Z) (a b : ascii).



End Edges.


Section FirstCell.

Local Open Scope Z_scope.

Context (substitution_matrix : gmap (ascii * ascii) Z) (gap : Z).


End FirstCell.

